(** * Handler resolution of python-telegram-bot: a shallow embedding

    The development embeds the three handlers of [telegram/ext]
    ([StringCommandHandler], [TypeHandler], [InlineQueryHandler]) together
    with the parts of the Python run time they call ([str.split],
    [isinstance], [type], [re.compile], [re.match]) and the dispatch loop
    of the design document, and proves the properties stated for them.

    A Python [str] is a [string], one [ascii] for each character.  A call
    that can raise returns a [result].  The handlers keep the names of
    their classes as modules; [None] is [None] of [option] wherever a
    value is optional. *)

From Stdlib Require Import ZArith List String Ascii Bool Lia.
From stdpp Require Import base option list strings gmap sorting.

Local Open Scope string_scope.
Local Open Scope Z_scope.
Local Open Scope list_scope.

(** ** Python values *)

(** Exceptions the modelled code can raise. *)
Inductive PyExn :=
| IndexError
| TypeError
| AttributeError
| RuntimeError
| re_error (msg : string).

(** Outcome of a call that may raise. *)
Inductive result (A : Type) :=
| Ok (a : A)
| Raise (e : PyExn).
Arguments Ok {A} a.
Arguments Raise {A} e.

(** Sequencing: the first exception raised propagates. *)
#[export] Instance result_ret : MRet result := fun A a => Ok a.
#[export] Instance result_bind : MBind result := fun A B k r =>
  match r with
  | Ok a => k a
  | Raise e => Raise e
  end.

(** A class defined by the application: its name and its direct bases, in
    the order of the [class] statement.  A class without explicit base
    derives from [object]. *)
#[warnings="-register-all"]
Inductive userclass :=
| UserClass (name : string) (bases : list userclass).

(** The classes of the object universe.  Class identity ([is]) is equality
    of these descriptors. *)
Inductive pyclass :=
| c_object
| c_NoneType
| c_int
| c_bool
| c_str
| c_TelegramObject
| c_Update
| c_user (c : userclass).

(** Modelled from the spec: the classes [telegram.InlineQuery] and
    [telegram.Update] are not part of the sources at hand; an update
    exposes an optional inline-query sub-object, which carries the
    query-text and chat-type fields, both possibly absent ([None]). *)
Record InlineQuery := mkInlineQuery {
  query : option string;
  chat_type : option string
}.

Record Update := mkUpdate {
  update_id : Z;
  message : option string;
  inline_query : option InlineQuery
}.

(** What can be put into the update queue ([update: object]): the values
    of the built-in classes and of [telegram.Update], and the instances of
    the classes of the application. *)
Inductive PyObj :=
| PyNone
| PyBool (b : bool)
| PyInt (n : Z)
| PyStr (s : string)
| PyUpdate (u : Update)
| PyInstance (c : userclass).

(** [type(o)] *)
Definition type_of (o : PyObj) : pyclass :=
  match o with
  | PyNone => c_NoneType
  | PyBool _ => c_bool
  | PyInt _ => c_int
  | PyStr _ => c_str
  | PyUpdate _ => c_Update
  | PyInstance c => c_user c
  end.

(** Identity of callables: a callback is known by its name. *)
Definition Callback := string.

(** Attribute values of a [CallbackContext]; [M] is the type of the
    elements of its [matches] list.  A context is a store of attributes,
    [gmap string (Attr M)]. *)
Inductive Attr (M : Type) :=
| AttrObj (o : PyObj)
| AttrArgs (a : option (list string))
| AttrMatches (l : list M).
Arguments AttrObj {M} o.
Arguments AttrArgs {M} a.
Arguments AttrMatches {M} l.

(** ** Strings *)

(** [s.startswith(p)] *)
Fixpoint startswith (s p : string) : bool :=
  match p, s with
  | EmptyString, _ => true
  | String a p', String b s' => Ascii.eqb a b && startswith s' p'
  | String _ _, EmptyString => false
  end.

(** [s[1:]] *)
Definition str_from_1 (s : string) : string :=
  match s with
  | EmptyString => EmptyString
  | String _ t => t
  end.

(** [s.split(sep)] for a separator of one character: no run of separators
    is merged, and the result always has at least one element. *)
Fixpoint split (sep : ascii) (s : string) : list string :=
  match s with
  | EmptyString => [EmptyString]
  | String c s' =>
      if Ascii.eqb c sep then EmptyString :: split sep s'
      else match split sep s' with
           | t :: ts => String c t :: ts
           | [] => [String c EmptyString]
           end
  end.

(** [sep.join(l)] *)
Fixpoint join (sep : ascii) (l : list string) : string :=
  match l with
  | [] => EmptyString
  | [t] => t
  | t :: ts => t +:+ String sep (join sep ts)
  end.

(** [c not in s] for a character. *)
Fixpoint lacks (c : ascii) (s : string) : bool :=
  match s with
  | EmptyString => true
  | String a s' => negb (Ascii.eqb a c) && lacks c s'
  end.

(** [l[0]]: raises [IndexError] on the empty list. *)
Definition item0 {A} (l : list A) : result A :=
  match l with
  | [] => Raise IndexError
  | x :: _ => Ok x
  end.

(** [l[1:]] *)
Definition from_1 {A} (l : list A) : list A := tl l.

(** ** telegram/ext/stringcommandhandler.py *)

Module StringCommandHandler.

Record t := mk {
  command : string;
  callback : Callback;
  run_async : bool
}.

Definition __init__ (command : string) (callback : Callback)
    (run_async : bool) : t :=
  mk command callback run_async.

(** [None] is Python's [None]; [Some args] is the list returned on a
    match. *)
Definition check_update (self : t) (update : PyObj)
    : result (option (list string)) :=
  match update with
  | PyStr u =>
      if startswith u "/" then
        let args := split " " (str_from_1 u) in
        a0 ← item0 args;
        if String.eqb a0 (command self) then Ok (Some (from_1 args))
        else Ok None
      else Ok None
  | _ => Ok None
  end.

(** The [dispatcher] argument is not read and is left out. *)
Definition collect_additional_context {M} (self : t)
    (context : gmap string (Attr M)) (update : PyObj)
    (check_result : option (list string)) : gmap string (Attr M) :=
  <["args" := AttrArgs check_result]> context.

End StringCommandHandler.

(** ** Classes: [__bases__], [isinstance], [is] *)


Fixpoint userclass_eqb (a b : userclass) : bool :=
  match a, b with
  | UserClass n1 bs1, UserClass n2 bs2 =>
      String.eqb n1 n2 &&
      (fix all2 (l1 l2 : list userclass) : bool :=
         match l1, l2 with
         | [], [] => true
         | x :: l1', y :: l2' => userclass_eqb x y && all2 l1' l2'
         | _, _ => false
         end) bs1 bs2
  end.

(** [a is b] on classes. *)
Definition class_is (a b : pyclass) : bool :=
  match a, b with
  | c_object, c_object | c_NoneType, c_NoneType | c_int, c_int
  | c_bool, c_bool | c_str, c_str | c_TelegramObject, c_TelegramObject
  | c_Update, c_Update => true
  | c_user x, c_user y => userclass_eqb x y
  | _, _ => false
  end.

(** The class itself and every class it derives from, directly or not. *)
Fixpoint user_ancestors (c : userclass) : list userclass :=
  c :: match c with
       | UserClass _ bs => concat (map user_ancestors bs)
       end.

Definition ancestors (c : pyclass) : list pyclass :=
  match c with
  | c_object => [c_object]
  | c_NoneType => [c_NoneType; c_object]
  | c_int => [c_int; c_object]
  | c_bool => [c_bool; c_int; c_object]
  | c_str => [c_str; c_object]
  | c_TelegramObject => [c_TelegramObject; c_object]
  | c_Update => [c_Update; c_TelegramObject; c_object]
  | c_user u => map c_user (user_ancestors u) ++ [c_object]
  end.

(** [a] is [b] or derives from it: [b] is among the ancestors of [a].
    This is the test on types inside [isinstance], which no class can
    change. *)
Definition issubclass (a b : pyclass) : bool :=
  existsb (class_is b) (ancestors a).

(** What [isinstance] can run of the program's own: the hook
    [__instancecheck__] that the metaclass of a class defines ([None] when
    the metaclass is [type] or keeps the hook of [type]), which answers or
    raises as it likes, [abc.ABCMeta] being one such metaclass; and the
    attribute [__class__] that a class redefines for its instances
    ([None] when it does not), which names a class or raises. *)
Class Runtime := {
  instancecheck : userclass -> option (PyObj -> result bool);
  class_attr : userclass -> option (result pyclass)
}.

Section Isinstance.
Context `{E : Runtime}.

(** [o.__class__] *)
Definition dunder_class (o : PyObj) : result pyclass :=
  match o with
  | PyInstance c =>
      match class_attr c with
      | Some r => r
      | None => Ok (c_user c)
      end
  | _ => Ok (type_of o)
  end.

(** The check without hook: the type of [o] first; when it fails,
    [o.__class__], if it is another class.  A missing [__class__] counts
    as a failed check, any other exception of the lookup is raised. *)
Definition object_isinstance (o : PyObj) (cls : pyclass) : result bool :=
  if issubclass (type_of o) cls then Ok true
  else
    match dunder_class o with
    | Ok icls => Ok (negb (class_is icls (type_of o)) && issubclass icls cls)
    | Raise AttributeError => Ok false
    | Raise e => Raise e
    end.

(** [isinstance(o, cls)] for a class [cls]: true at once when [type(o)] is
    [cls]; else the hook of the metaclass when there is one; else the
    check without hook. *)
Definition isinstance (o : PyObj) (cls : pyclass) : result bool :=
  if class_is (type_of o) cls then Ok true
  else
    match cls with
    | c_user u =>
        match instancecheck u with
        | Some hook => hook o
        | None => object_isinstance o cls
        end
    | _ => object_isinstance o cls
    end.

End Isinstance.

(** ** telegram/ext/typehandler.py *)

Module TypeHandler.

Record t := mk {
  type : pyclass;
  callback : Callback;
  strict : bool;
  run_async : bool
}.

Definition __init__ (type : pyclass) (callback : Callback)
    (strict : bool) (run_async : bool) : t :=
  mk type callback strict run_async.

Definition check_update `{E : Runtime} (self : t) (update : PyObj)
    : result bool :=
  if negb (strict self) then isinstance update (type self)
  else Ok (class_is (type_of update) (type self)).

End TypeHandler.

(** ** The [re] module, as the handlers use it *)

(** The interface of a regular-expression engine: compiled patterns, match
    objects, [re.compile] on a pattern string (which raises [re.error] on
    a malformed one) and the [match] method of a compiled pattern, which
    tries the pattern at the start of the string. *)
Class Regex := {
  Pattern : Type;
  Match : Type;
  re_compile : string -> result Pattern;
  Pattern_match : Pattern -> string -> option Match
}.

Section Re.
Context `{R : Regex}.

(** What [re.match] accepts as its first argument. *)
Inductive PatternArg :=
| PatStr (s : string)
| PatCompiled (p : Pattern).

(** [re.match(pattern, string)]: a compiled pattern is used as it is, a
    string is compiled first. *)
Definition re_match (pattern : PatternArg) (s : string)
    : result (option Match) :=
  match pattern with
  | PatCompiled p => Ok (Pattern_match p s)
  | PatStr src => p ← re_compile src; Ok (Pattern_match p s)
  end.
End Re.

(** ** telegram/ext/inlinequeryhandler.py *)

Module InlineQueryHandler.
Section WithRegex.
Context `{R : Regex}.

Record t := mk {
  callback : Callback;
  pattern : option PatternArg;
  run_async : bool;
  chat_types : option (list string)
}.

Definition __init__ (callback : Callback) (pattern : option PatternArg)
    (run_async : bool) (chat_types : option (list string)) : result t :=
  pattern' ← match pattern with
             | Some (PatStr s) =>
                 p ← re_compile s; Ok (Some (PatCompiled p))
             | other => Ok other
             end;
  Ok (mk callback pattern' run_async chat_types).

(** [Optional[Union[bool, Match]]] *)
Inductive CheckResult :=
| RNone
| RBool (b : bool)
| RMatch (m : Match).

(** [if x:] on the [pattern] slot: [None] and the empty string are
    false, a compiled pattern is true.  The value is kept when true. *)
Definition if_pattern (p : option PatternArg) : option PatternArg :=
  match p with
  | None => None
  | Some (PatStr EmptyString) => None
  | Some p => Some p
  end.

(** [if x:] on an [Optional[str]]. *)
Definition if_str (s : option string) : option string :=
  match s with
  | None => None
  | Some EmptyString => None
  | Some s => Some s
  end.

(** [x not in l] for an optional string and a list of strings. *)
Definition not_in (x : option string) (l : list string) : bool :=
  match x with
  | None => true
  | Some c => negb (existsb (String.eqb c) l)
  end.

(** [(self.chat_types is not None) and (chat_type not in self.chat_types)] *)
Definition rejected (self : t) (iq : InlineQuery) : bool :=
  match chat_types self with
  | Some cts => not_in (chat_type iq) cts
  | None => false
  end.

Definition check_update (self : t) (update : PyObj) : result CheckResult :=
  match update with
  | PyUpdate u =>
      match inline_query u with
      | Some iq =>
          if rejected self iq then Ok (RBool false)
          else
            match if_pattern (pattern self) with
            | Some p =>
                match if_str (query iq) with
                | Some q =>
                    m ← re_match p q;
                    match m with
                    | Some mo => Ok (RMatch mo)
                    | None => Ok RNone
                    end
                | None => Ok RNone
                end
            | None => Ok (RBool true)
            end
      | None => Ok RNone
      end
  | _ => Ok RNone
  end.

(** The [dispatcher] argument is not read and is left out. *)
Definition collect_additional_context (self : t)
    (context : gmap string (Attr CheckResult)) (update : PyObj)
    (check_result : CheckResult) : gmap string (Attr CheckResult) :=
  match if_pattern (pattern self) with
  | Some _ => <["matches" := AttrMatches [check_result]]> context
  | None => context
  end.

End WithRegex.
End InlineQueryHandler.

(** ** A regular-expression engine for a fragment of [re]

    The engine covers literal characters, [.], the greedy postfix [*] on
    an operand that cannot match the empty string, alternation [|], and
    capturing groups, plain [( )] or named [(?P<name> )].  It follows the
    backtracking discipline of Python's engine: alternatives left to
    right, [*] longest first.  A pattern string that uses anything else
    is outside the fragment and [compile] refuses it; inside the fragment
    [compile] raises where Python does (unbalanced parenthesis, nothing to
    repeat, multiple repeat, bad or repeated group name). *)

Module sre.

Inductive regex :=
| Empty
| Lit (c : ascii)
| AnyChar
| Seq (r1 r2 : regex)
| Alt (r1 r2 : regex)
| Star (r : regex)
| Group (i : nat) (r : regex).

Fixpoint nullable (r : regex) : bool :=
  match r with
  | Empty => true
  | Lit _ | AnyChar => false
  | Seq r1 r2 => nullable r1 && nullable r2
  | Alt r1 r2 => nullable r1 || nullable r2
  | Star _ => true
  | Group _ r1 => nullable r1
  end.

(** Group number and captured text, the latest capture first. *)
Definition captures := list (nat * string).

(** The text between a position [s] and a later position [s']. *)
Definition consumed (s s' : string) : string :=
  substring 0 (String.length s - String.length s') s.

Definition newline : ascii := "010"%char.

(** [run r s cs k]: match [r] at the head of [s], then continue with
    [k] on the rest; [None] makes the caller try its next choice. *)
Fixpoint run {X} (r : regex) (s : string) (cs : captures)
    (k : string -> captures -> option X) : option X :=
  match r with
  | Empty => k s cs
  | Lit c =>
      match s with
      | String a s' => if Ascii.eqb a c then k s' cs else None
      | EmptyString => None
      end
  | AnyChar =>
      match s with
      | String a s' => if Ascii.eqb a newline then None else k s' cs
      | EmptyString => None
      end
  | Seq r1 r2 => run r1 s cs (fun s' cs' => run r2 s' cs' k)
  | Alt r1 r2 =>
      match run r1 s cs k with
      | Some x => Some x
      | None => run r2 s cs k
      end
  | Star r1 =>
      (fix loop (fuel : nat) (s : string) (cs : captures) : option X :=
         match fuel with
         | O => k s cs
         | S fuel' =>
             match run r1 s cs (fun s' cs' =>
                     if (String.length s' <? String.length s)%nat
                     then loop fuel' s' cs' else None) with
             | Some x => Some x
             | None => k s cs
             end
         end) (String.length s) s cs
  | Group i r1 =>
      run r1 s cs (fun s' cs' => k s' ((i, consumed s s') :: cs'))
  end.

Record Pattern := mkPattern {
  source : string;
  body : regex;
  groups : nat;
  groupindex : list (string * nat)
}.

Record Match := mkMatch {
  m_re : Pattern;
  m_string : string;
  m_end : nat;
  m_captures : captures
}.

(** [p.match(s)] *)
Definition pattern_match (p : Pattern) (s : string) : option Match :=
  run (body p) s []
    (fun s' cs =>
       Some (mkMatch p s (String.length s - String.length s') cs)).

(** [m.group(0)] *)
Definition group0 (m : Match) : string := substring 0 (m_end m) (m_string m).

(** [m.group(i)] for a group number [i >= 1]; [None] when the group took
    no part in the match. *)
Definition group (m : Match) (i : nat) : option string :=
  snd <$> List.find (fun c => Nat.eqb (fst c) i) (m_captures m).

(** [m.groups()] *)
Definition groups_of (m : Match) : list (option string) :=
  map (group m) (seq 1 (groups (m_re m))).

(** [m.groupdict()] *)
Definition groupdict (m : Match) : list (string * option string) :=
  map (fun ni => (fst ni, group m (snd ni))) (groupindex (m_re m)).

(** *** Parsing a pattern string *)

(** An open group while parsing: its number, the alternatives finished
    so far and the items of the current alternative, both latest
    first. *)
Record frame := mkframe {
  f_group : nat;
  f_alts : list regex;
  f_seq : list regex
}.

Definition seq_of (items : list regex) : regex :=
  match items with
  | [] => Empty
  | r :: rest => fold_left (fun acc x => Seq x acc) rest r
  end.

Definition close_frame (f : frame) : regex :=
  fold_left (fun acc a => Alt a acc) (f_alts f) (seq_of (f_seq f)).

Definition push_item (r : regex) (f : frame) : frame :=
  mkframe (f_group f) (f_alts f) (r :: f_seq f).

Definition is_ident_start (c : ascii) : bool :=
  let n := nat_of_ascii c in
  ((65 <=? n) && (n <=? 90) || (97 <=? n) && (n <=? 122) || (n =? 95))%nat.

Definition is_ident_char (c : ascii) : bool :=
  let n := nat_of_ascii c in
  (is_ident_start c || (48 <=? n) && (n <=? 57))%nat.

Definition unsupported (c : ascii) : bool :=
  existsb (Ascii.eqb c)
    ["\"; "^"; "$"; "+"; "?"; "{"; "}"; "["; "]"]%char.

(** [name] is [Some acc] while the name of a group is being read. *)
Fixpoint parse (cs : list ascii) (stack : list frame) (cur : frame)
    (next : nat) (names : list (string * nat)) (name : option string)
    : result (regex * nat * list (string * nat)) :=
  match name, cs with
  | Some _, [] => Raise (re_error "missing >, unterminated name")
  | Some acc, c :: rest =>
      if Ascii.eqb c ">" then
        match acc with
        | EmptyString => Raise (re_error "missing group name")
        | _ =>
            if existsb (fun ni => String.eqb (fst ni) acc) names
            then Raise (re_error "redefinition of group name")
            else parse rest (cur :: stack) (mkframe next [] [])
                   (S next) ((acc, next) :: names) None
        end
      else if match acc with
              | EmptyString => is_ident_start c
              | _ => is_ident_char c
              end
      then parse rest stack cur next names
             (Some (acc +:+ String c EmptyString))
      else Raise (re_error "bad character in group name")
  | None, [] =>
      match stack with
      | [] => Ok (close_frame cur, pred next, rev names)
      | _ :: _ => Raise (re_error "missing ), unterminated subpattern")
      end
  | None, "("%char :: "?"%char :: "P"%char :: "<"%char :: rest =>
      parse rest stack cur next names (Some EmptyString)
  | None, "("%char :: "?"%char :: _ =>
      Raise (re_error "outside the fragment")
  | None, "("%char :: rest =>
      parse rest (cur :: stack) (mkframe next [] []) (S next) names None
  | None, ")"%char :: rest =>
      match stack with
      | [] => Raise (re_error "unbalanced parenthesis")
      | up :: stack' =>
          parse rest stack'
            (push_item (Group (f_group cur) (close_frame cur)) up)
            next names None
      end
  | None, "|"%char :: rest =>
      parse rest stack
        (mkframe (f_group cur) (seq_of (f_seq cur) :: f_alts cur) [])
        next names None
  | None, "*"%char :: rest =>
      match f_seq cur with
      | [] => Raise (re_error "nothing to repeat")
      | Star _ :: _ => Raise (re_error "multiple repeat")
      | r :: items =>
          if nullable r then Raise (re_error "outside the fragment")
          else parse rest stack
                 (mkframe (f_group cur) (f_alts cur) (Star r :: items))
                 next names None
      end
  | None, "."%char :: rest =>
      parse rest stack (push_item AnyChar cur) next names None
  | None, c :: rest =>
      if unsupported c then Raise (re_error "outside the fragment")
      else parse rest stack (push_item (Lit c) cur) next names None
  end.

(** [re.compile(src)] *)
Definition compile (src : string) : result Pattern :=
  r ← parse (list_ascii_of_string src) [] (mkframe 0 [] []) 1 [] None;
  Ok (mkPattern src r.1.1 r.1.2 r.2).

End sre.

#[export] Instance sre_Regex : Regex := {|
  Pattern := sre.Pattern;
  Match := sre.Match;
  re_compile := sre.compile;
  Pattern_match := sre.pattern_match
|}.

(** ** The dispatch engine *)

Module Dispatcher.
Section WithRegex.
Context `{R : Regex}.

Abbreviation CallbackContext :=
  (gmap string (Attr InlineQueryHandler.CheckResult)).

(** Modelled from the spec: the dispatcher module is not part of the
    sources at hand.  A match result is a plain "matched", a list of
    residual tokens, or a pattern-match object. *)
Inductive MatchResult :=
| MTrue
| MTokens (l : list string)
| MObject (m : Match).

(** Modelled from the spec: the execution-mode flag of a handler,
    inherit-default / force-sync / force-pooled. *)
Inductive Mode := Inherit | Sync | Pooled.

(** Modelled from the spec: a predicate handler is a callback, an
    execution-mode flag, a match predicate ([None] is "no match") and an
    enrichment step. *)
Record Handler := mkHandler {
  h_callback : Callback;
  h_mode : Mode;
  h_match : PyObj -> option MatchResult;
  h_enrich : CallbackContext -> PyObj -> MatchResult -> CallbackContext
}.

(** Modelled from the spec: the registry maps a group identifier to the
    handlers of the group, in insertion order. *)
Abbreviation Registry := (gmap Z (list Handler)).

(** Modelled from the spec: [addHandler(handler, group)] appends to the
    group. *)
Definition add_handler (h : Handler) (group : Z) (reg : Registry)
    : Registry :=
  <[group := default [] (reg !! group) ++ [h]]> reg.

Definition group_le (a b : Z * list Handler) : Prop := a.1 <= b.1.

#[export] Instance group_le_dec a b : Decision (group_le a b).
Proof. unfold group_le. apply _. Defined.

(** Modelled from the spec: [iterateGroupsInOrder()], the groups in
    ascending order of identifier. *)
Definition iterate_groups_in_order (reg : Registry)
    : list (Z * list Handler) :=
  merge_sort group_le (map_to_list reg).

(** Modelled from the spec: the context builder makes a fresh context
    holding the update and the reference to the shared state. *)
Definition build (update shared : PyObj) : CallbackContext :=
  {[ "update" := AttrObj update; "shared_state" := AttrObj shared ]}.

(** Modelled from the spec: the handler's explicit flag takes precedence
    over the global default; [true] is pooled execution. *)
Definition execution_mode (default_pooled : bool) (m : Mode) : bool :=
  match m with
  | Inherit => default_pooled
  | Sync => false
  | Pooled => true
  end.

(** Modelled from the spec: what a dispatch does, as a log: the handlers
    whose [match] was called, by group and position, and the callbacks
    invoked, with execution mode and context. *)
Inductive Event :=
| Consulted (g : Z) (i : nat)
| Invoked (g : Z) (i : nat) (cb : Callback) (pooled : bool)
    (ctx : CallbackContext).

Definition is_invoked (e : Event) : bool :=
  match e with
  | Invoked _ _ _ _ _ => true
  | Consulted _ _ => false
  end.

Inductive DispatchOutcome := Unhandled | Handled.

(** Modelled from the spec: the handlers of one group are tried in
    registration order, from position [i] on, up to the first match. *)
Fixpoint scan (g : Z) (i : nat) (hs : list Handler) (update : PyObj)
    : list Event * option (nat * Handler * MatchResult) :=
  match hs with
  | [] => ([], None)
  | h :: hs' =>
      match h_match h update with
      | Some r => ([Consulted g i], Some (i, h, r))
      | None =>
          let '(ev, found) := scan g (S i) hs' update in
          (Consulted g i :: ev, found)
      end
  end.

(** Modelled from the spec: the groups are tried in order; the search
    stops at the first match of the whole registry. *)
Fixpoint search (groups : list (Z * list Handler)) (update : PyObj)
    : list Event * option (Z * nat * Handler * MatchResult) :=
  match groups with
  | [] => ([], None)
  | (g, hs) :: rest =>
      match scan g 0 hs update with
      | (ev, Some (i, h, r)) => (ev, Some (g, i, h, r))
      | (ev, None) =>
          let '(ev', found) := search rest update in
          (ev ++ ev', found)
      end
  end.

(** Modelled from the spec: [dispatch(update)], steps 1 to 6 of the
    dispatch algorithm. *)
Definition dispatch (reg : Registry) (default_pooled : bool)
    (shared update : PyObj) : DispatchOutcome * list Event :=
  match search (iterate_groups_in_order reg) update with
  | (ev, Some (g, i, h, r)) =>
      let context := h_enrich h (build update shared) update r in
      (Handled,
       ev ++ [Invoked g i (h_callback h)
                (execution_mode default_pooled (h_mode h)) context])
  | (ev, None) => (Unhandled, ev)
  end.

(** The handlers of [telegram/ext] as predicate handlers. *)
Definition mode_of (run_async : bool) : Mode :=
  if run_async then Pooled else Inherit.

Definition of_StringCommandHandler (h : StringCommandHandler.t) : Handler :=
  mkHandler (StringCommandHandler.callback h)
    (mode_of (StringCommandHandler.run_async h))
    (fun u =>
       match StringCommandHandler.check_update h u with
       | Ok (Some args) => Some (MTokens args)
       | _ => None
       end)
    (fun ctx u r =>
       match r with
       | MTokens args =>
           StringCommandHandler.collect_additional_context h ctx u
             (Some args)
       | _ => ctx
       end).

Definition of_TypeHandler `{E : Runtime} (h : TypeHandler.t) : Handler :=
  mkHandler (TypeHandler.callback h)
    (mode_of (TypeHandler.run_async h))
    (fun u =>
       match TypeHandler.check_update h u with
       | Ok true => Some MTrue
       | _ => None
       end)
    (fun ctx _ _ => ctx).

End WithRegex.

Abbreviation CallbackContext :=
  (gmap string (Attr InlineQueryHandler.CheckResult)).
Abbreviation Registry := (gmap Z (list Handler)).

End Dispatcher.

(** * The terms of the statements *)

(** A token without space. *)
Definition spaceless (t : string) : Prop := lacks " " t = true.

(** [s'] is what is left of [s] after some prefix. *)
Definition rest_of (s' s : string) : Prop := exists pre, s = pre +:+ s'.






Section IsinstanceTerms.
Context `{E : Runtime}.



End IsinstanceTerms.

(** A program none of whose classes defines a hook or redefines
    [__class__]. *)
#[export] Instance plain_runtime : Runtime := {|
  instancecheck := fun _ => None;
  class_attr := fun _ => None
|}.

(** [class Evil] redefines [__class__] as a property that raises
    [RuntimeError]. *)
Definition Evil : userclass := UserClass "Evil" [].

(** [class Base: pass], [abc.ABC], and [class Cmd2(Base, ABC)]. *)
Definition Base : userclass := UserClass "Base" [].
Definition ABC : userclass := UserClass "ABC" [].
Definition Cmd2 : userclass := UserClass "Cmd2" [Base; ABC].

(** The attribute [__class__] in a program with the class [Evil]. *)
Definition hostile_class_attr (u : userclass) : option (result pyclass) :=
  if userclass_eqb u Evil then Some (Raise RuntimeError) else None.

(** [__instancecheck__] of [abc.ABCMeta] for a class whose
    [__subclasscheck__] accepts the classes that [accepts] does: the
    check is made on [instance.__class__], and on [type(instance)] too
    when it is another class. *)
Definition abc_instancecheck (accepts : pyclass -> bool) (o : PyObj)
    : result bool :=
  subclass ← @dunder_class
               {| instancecheck := fun _ => None;
                  class_attr := hostile_class_attr |} o;
  Ok (accepts subclass || accepts (type_of o)).

(** [Cmd2.__subclasscheck__] after [Cmd2.register(str)]: the classes that
    derive from [Cmd2] or from the registered [str]. *)
Definition Cmd2_accepts (x : pyclass) : bool :=
  issubclass x (c_user Cmd2) || issubclass x c_str.

(** [ABC.__subclasscheck__]: the classes that derive from [ABC], and those
    that its subclass [Cmd2] accepts. *)
Definition ABC_accepts (x : pyclass) : bool :=
  issubclass x (c_user ABC) || Cmd2_accepts x.

(** A program with the classes [Evil], [Base], [ABC] and [Cmd2], after
    [Cmd2.register(str)]. *)
Definition hostile_runtime : Runtime := {|
  instancecheck := fun u =>
    if userclass_eqb u Cmd2 then Some (abc_instancecheck Cmd2_accepts)
    else if userclass_eqb u ABC then Some (abc_instancecheck ABC_accepts)
    else None;
  class_attr := hostile_class_attr
|}.

Section InlineQueryTerms.
Context `{R : Regex}.
Import InlineQueryHandler.

(** The chat type [ct] is in the allow-list [l]. *)
Definition listed (l : list string) (ct : option string) : Prop :=
  exists c, ct = Some c /\ c ∈ l.

(** The allow-list check passes: no allow-list, or a listed chat type. *)
Definition passes (cts : option (list string)) (ct : option string) : Prop :=
  match cts with
  | None => True
  | Some l => listed l ct
  end.

(** The two results that are not a match. *)
Definition no_match (r : CheckResult) : Prop := r = RNone \/ r = RBool false.

(** The compiled pattern that [__init__] stores for the argument [pat]. *)
Definition stored (pat : option PatternArg) (cp : option Pattern) : Prop :=
  match pat with
  | None => cp = None
  | Some (PatCompiled p) => cp = Some p
  | Some (PatStr s) => exists p, re_compile s = Ok p /\ cp = Some p
  end.

(** What [check_update] computes for a handler that holds a compiled
    pattern or none. *)
Definition outcome (cp : option Pattern) (cts : option (list string))
    (update : PyObj) : CheckResult :=
  match update with
  | PyUpdate u =>
      match inline_query u with
      | Some iq =>
          if match cts with Some l => not_in (chat_type iq) l | None => false end
          then RBool false
          else match cp with
               | Some p =>
                   match if_str (query iq) with
                   | Some q =>
                       match Pattern_match p q with
                       | Some mo => RMatch mo
                       | None => RNone
                       end
                   | None => RNone
                   end
               | None => RBool true
               end
      | None => RNone
      end
  | _ => RNone
  end.

End InlineQueryTerms.

Section Instances.
Import InlineQueryHandler.

(** The compiled form of the pattern ["te"]. *)
Definition te_pattern : sre.Pattern :=
  sre.mkPattern "te" (sre.Seq (sre.Lit "t") (sre.Lit "e")) 0 [].

(** A handler for queries that start with ["te"], for private chats only. *)
Definition te_private : t :=
  mk "on_query" (Some (PatCompiled te_pattern)) false (Some ["private"]).

(** A handler without pattern, for private chats only. *)
Definition any_private : t := mk "on_query" None false (Some ["private"]).

(** An update that carries an inline query and nothing else. *)
Definition query_from (text : option string) (chat : option string) : Update :=
  mkUpdate 1 None (Some (mkInlineQuery text chat)).

End Instances.

Section DispatchTerms.
Context `{R : Regex}.
Import Dispatcher.

(** The callbacks a dispatch invoked, in order. *)
Definition invocations (log : list Event) : list Event :=
  List.filter is_invoked log.

(** The handler [h], at position [i] of group [g], is the first one of the
    registry that matches [u]: no handler of a group with a smaller
    identifier matches, and none at a smaller position of group [g]. *)
Definition first_match (reg : Registry) (u : PyObj) (g : Z) (i : nat)
    (h : Handler) : Prop :=
  exists hs,
    reg !! g = Some hs /\ hs !! i = Some h /\ is_Some (h_match h u)
    /\ forall g' hs' j h',
         reg !! g' = Some hs' -> hs' !! j = Some h' ->
         g' < g \/ (g' = g /\ (j < i)%nat) ->
         h_match h' u = None.

End DispatchTerms.

Section TwoGroupsRegistry.
Import Dispatcher.

(** Group 0 holds a handler for the command [start], group 1 a handler
    for every string; the second is registered first. *)
Definition two_groups : Registry :=
  add_handler
    (of_StringCommandHandler
       (StringCommandHandler.__init__ "start" "on_start" false)) 0
    (add_handler
       (of_TypeHandler (TypeHandler.__init__ c_str "on_str" false true)) 1
       ∅).

End TwoGroupsRegistry.

(** ** tests/test_stringregexhandler.py *)

Module TestStringRegexHandler.

(** [d[k]] on a dictionary kept as the list of its items. *)
Fixpoint dict_get (d : list (string * option string)) (k : string)
    : option (option string) :=
  match d with
  | [] => None
  | (k', v) :: d' => if String.eqb k' k then Some v else dict_get d' k
  end.

(** [d == e] on dictionaries with distinct keys: as many items, and every
    item of [e] in [d]. *)
Definition dict_eqb (d e : list (string * option string)) : bool :=
  Nat.eqb (length d) (length e)
  && forallb (fun kv => bool_decide (dict_get d kv.1 = Some kv.2)) e.

(** [callback_context_pattern(self, update, context)]: [test_flag] is the
    attribute of the test object before the call, [matches] is
    [context.matches]; the result is the attribute after the call.  A
    tuple or a dictionary is true when it is not empty. *)
Definition callback_context_pattern (test_flag : bool)
    (matches : list sre.Match) : result bool :=
  m ← item0 matches;
  let test_flag :=
    match sre.groups_of m with
    | [] => test_flag
    | _ :: _ => bool_decide (sre.groups_of m = [Some "t"; Some " message"])
    end in
  m ← item0 matches;
  match sre.groupdict m with
  | [] => Ok test_flag
  | _ :: _ =>
      Ok (dict_eqb (sre.groupdict m)
            [("begin", Some "t"); ("end", Some " message")])
  end.

End TestStringRegexHandler.

(** ** More terms of the statements *)

(** How many times the character [c] occurs in [s]. *)
Fixpoint occurrences (c : ascii) (s : string) : nat :=
  match s with
  | EmptyString => 0
  | String a s' => (if Ascii.eqb a c then 1 else 0) + occurrences c s'
  end.

(** The handler for the command [start]. *)
Definition start_handler : StringCommandHandler.t :=
  StringCommandHandler.__init__ "start" "on_start" false.

(** * Proofs *)

(** ** Strings: properties of [split] and [join] *)

Section SplitJoin.
Variable sep : ascii.

Lemma split_nonempty s : split sep s <> [].
Proof.
  destruct s as [|c s]; simpl; [done|].
  destruct (Ascii.eqb c sep); [done|]. by destruct (split sep s).
Qed.

Lemma join_cons t ts :
  ts <> [] -> join sep (t :: ts) = t +:+ String sep (join sep ts).
Proof. by destruct ts. Qed.

Lemma join_split s : join sep (split sep s) = s.
Proof.
  induction s as [|c s IH]; [done|]. simpl.
  destruct (Ascii.eqb_spec c sep) as [->|Hne].
  - rewrite join_cons by apply split_nonempty. simpl. by rewrite IH.
  - pose proof (split_nonempty s) as Hs.
    destruct (split sep s) as [|t ts]; [done|].
    destruct ts as [|t' ts]; simpl in *; by rewrite <- IH.
Qed.

Lemma split_lacks s : Forall (fun t => lacks sep t = true) (split sep s).
Proof.
  induction s as [|c s IH]; simpl; [by repeat constructor|].
  destruct (Ascii.eqb_spec c sep) as [->|Hne]; [by constructor|].
  destruct (split sep s) as [|t ts]; inversion IH; subst; constructor; try done.
  - simpl. by destruct (Ascii.eqb_spec c sep).
  - simpl. destruct (Ascii.eqb_spec c sep); [done|]. simpl. done.
Qed.

Lemma split_lacks_app t s :
  lacks sep t = true ->
  split sep (t +:+ String sep s) = t :: split sep s.
Proof.
  induction t as [|c t IH]; simpl.
  - intros _. by rewrite Ascii.eqb_refl.
  - destruct (Ascii.eqb_spec c sep); [done|]. simpl. intros H. by rewrite IH.
Qed.

Lemma split_lacks_one t : lacks sep t = true -> split sep t = [t].
Proof.
  induction t as [|c t IH]; simpl; [done|].
  destruct (Ascii.eqb_spec c sep); [done|]. simpl. intros H. by rewrite IH.
Qed.

End SplitJoin.

(** ** StringCommandHandler *)

Section StringCommand.
Import StringCommandHandler.

Lemma startswith_slash u :
  startswith u "/" = true <-> exists s, u = String "/" s.
Proof.
  destruct u as [|c s]; cbn [startswith].
  - split; [done|]. by intros [? ?].
  - destruct (Ascii.eqb_spec "/" c) as [<-|Hne]; cbn [andb].
    + destruct s; split; eauto.
    + split; [done|]. intros [? [= ? ?]]. by subst.
Qed.

Lemma check_update_split h U args :
  check_update h U = Ok (Some args) <->
  exists s, U = PyStr (String "/" s) /\ split " " s = command h :: args.
Proof.
  unfold check_update. destruct U as [| | |u| |]; try (split; [done|by intros (?&?&?)]).
  destruct (startswith u "/") eqn:Hsw.
  - apply startswith_slash in Hsw as [s ->]. simpl str_from_1.
    pose proof (split_nonempty " " s) as Hne.
    destruct (split " " s) as [|a0 rest] eqn:Hsp; [done|]. simpl.
    destruct (String.eqb_spec a0 (command h)) as [->|Hc].
    + split.
      * intros [= <-]. eauto.
      * intros (s' & [= <-] & Heq). rewrite Hsp in Heq. by injection Heq as ->.
    + split; [done|]. intros (s' & [= <-] & Heq). rewrite Hsp in Heq.
      by injection Heq as -> ->.
  - split; [done|]. intros (s & [= ->] & _).
    by rewrite (proj2 (startswith_slash _)) in Hsw by eauto.
Qed.

End StringCommand.


(** ** Classes *)

Section Classes.

(** Induction on a class with the hypothesis on all its bases. *)
Lemma userclass_bases_ind (P : userclass -> Prop) :
  (forall n bs, Forall P bs -> P (UserClass n bs)) -> forall c, P c.
Proof.
  intros step. fix IH 1. intros [n bs]. apply step.
  induction bs as [|b bs IHbs]; constructor; [apply IH|exact IHbs].
Qed.

Lemma userclass_eqb_eq a b : userclass_eqb a b = true <-> a = b.
Proof.
  revert b. induction a as [n bs IH] using userclass_bases_ind.
  intros [n' bs']. cbn [userclass_eqb]. rewrite andb_true_iff, String.eqb_eq.
  assert (forall l1 l2, Forall (fun a => forall b, userclass_eqb a b = true <-> a = b) l1 ->
    ((fix all2 (l1 l2 : list userclass) : bool :=
       match l1, l2 with
       | [], [] => true
       | x :: l1', y :: l2' => userclass_eqb x y && all2 l1' l2'
       | _, _ => false
       end) l1 l2 = true <-> l1 = l2)) as Hall.
  { clear. induction l1 as [|x l1 IHl]; intros [|y l2] Hf; try (split; done).
    inversion Hf as [|? ? Hx Hl]; subst.
    rewrite andb_true_iff, Hx, (IHl l2 Hl). split; [by intros [-> ->]|by intros [= -> ->]]. }
  rewrite (Hall bs bs' IH). split; [by intros [-> ->]|by intros [= -> ->]].
Qed.

Lemma class_is_eq a b : class_is a b = true <-> a = b.
Proof.
  destruct a, b; cbn [class_is]; try (split; done).
  rewrite userclass_eqb_eq. split; [by intros ->|by intros [= ->]].
Qed.








End Classes.

Section Acyclic.





End Acyclic.

Section IsinstanceFacts.
Context `{E : Runtime}.







End IsinstanceFacts.

(** [isinstance] on the program [hostile_runtime]: an instance of [Evil]
    is an [object], while the check against [int] or [str] raises; the
    string ["x"] is a [Cmd2] and an [ABC], and is no [Base]. *)
Example isinstance_hostile :
  @isinstance hostile_runtime (PyInstance Evil) c_object = Ok true
  /\ @isinstance hostile_runtime (PyInstance Evil) c_int = Raise RuntimeError
  /\ @isinstance hostile_runtime (PyInstance Evil) c_str = Raise RuntimeError
  /\ @isinstance hostile_runtime (PyStr "x") (c_user Cmd2) = Ok true
  /\ @isinstance hostile_runtime (PyStr "x") (c_user ABC) = Ok true
  /\ @isinstance hostile_runtime (PyStr "x") (c_user Base) = Ok false
  /\ @isinstance hostile_runtime (PyInstance Cmd2) (c_user Base) = Ok true.
Proof. by repeat split. Qed.



(** ** InlineQueryHandler *)

Section InlineQuery.
Context `{R : Regex}.
Import InlineQueryHandler.

Lemma not_in_listed ct l : not_in ct l = true <-> ~ listed l ct.
Proof.
  unfold not_in, listed. destruct ct as [c|].
  - rewrite negb_true_iff, <- not_true_iff_false, existsb_exists. split.
    + intros Hn (c' & [= ->] & Hin). apply Hn. exists c'.
      split; [by apply list_elem_of_In|apply String.eqb_refl].
    + intros Hn (x & Hin & Heq%String.eqb_eq). subst. apply Hn.
      eexists. split; [done|by apply list_elem_of_In].
  - split; [|done]. by intros _ (c & ? & _).
Qed.

Lemma allow_list_passes cts ct :
  match cts with Some l => not_in ct l | None => false end = false
  <-> passes cts ct.
Proof.
unfold passes. destruct cts as [l|]; [|done].
rewrite <- not_true_iff_false, not_in_listed. split; [|tauto].
intros Hnn. destruct ct as [c|].
- destruct (decide (c ∈ l)); [by exists c|].
  exfalso. apply Hnn. by intros (c' & [= ->] & ?).
- exfalso. apply Hnn. by intros (c & ? & _).
Qed.


Lemma init_stored cb pat ra cts h :
  __init__ cb pat ra cts = Ok h ->
  exists cp, stored pat cp /\ h = mk cb (PatCompiled <$> cp) ra cts.
Proof.
  unfold __init__, stored. destruct pat as [[s|p]|]; cbn.
  - destruct (re_compile s) as [p|e] eqn:E; cbn; [|done].
    intros [= <-]. exists (Some p). eauto.
  - intros [= <-]. by exists (Some p).
  - intros [= <-]. by exists None.
Qed.

Lemma check_update_compiled cb cp ra cts U :
  check_update (mk cb (PatCompiled <$> cp) ra cts) U = Ok (outcome cp cts U).
Proof.
  unfold check_update, outcome, rejected. cbn [chat_types pattern].
  destruct U as [| | | |u|]; try done.
  destruct (inline_query u) as [iq|]; [|done].
  destruct (match cts with Some _ => _ | None => _ end); [done|].
  destruct cp as [p|]; cbn; [|done].
  destruct (if_str (query iq)) as [q|]; [|done].
  cbn. by destruct (Pattern_match p q).
Qed.

Lemma if_str_None s : if_str s = None <-> s = None \/ s = Some "".
Proof. destruct s as [[|]|]; cbn; split; auto; intros [|]; done. Qed.

Lemma if_str_Some s q : if_str s = Some q <-> s = Some q /\ q <> "".
Proof.
  destruct s as [[|c s]|]; cbn; split; try done.
  - by intros [[= <-] ?].
  - by intros [= <-].
  - by intros [[= <-] _].
  - by intros [? _].
Qed.


Lemma outcome_passed cp cts u iq :
  inline_query u = Some iq -> passes cts (chat_type iq) ->
  outcome cp cts (PyUpdate u) =
  match cp with
  | Some p =>
      match if_str (query iq) with
      | Some q =>
          match Pattern_match p q with
          | Some mo => RMatch mo
          | None => RNone
          end
      | None => RNone
      end
  | None => RBool true
  end.
Proof.
intros Hiq Hpass%allow_list_passes. unfold outcome. by rewrite Hiq, Hpass.
Qed.

(** C3: when an allow-list is configured and the chat type of the inline
    query is not in it (or is absent), [check_update] returns [False], a
    no-match, whatever the [pattern] slot holds and whatever the query
    text is: the test comes before any use of the pattern. *)
Theorem chat_type_check_takes_precedence h cts u iq :
  chat_types h = Some cts ->
  inline_query u = Some iq ->
  ~ listed cts (chat_type iq) ->
  check_update h (PyUpdate u) = Ok (RBool false).
Proof.
intros Hcts Hiq Hnot%not_in_listed.
unfold check_update, rejected. by rewrite Hiq, Hcts, Hnot.
Qed.

(** C4: for a handler constructed with a pattern, on an update whose
    inline query passes the allow-list: an absent or empty query text
    gives [None]; a non-empty query text [q] gives the match object of
    the compiled pattern tried at the start of [q] when there is one, and
    [None] otherwise. *)
Theorem pattern_check_on_query_text cb pat ra cts h u iq :
  __init__ cb (Some pat) ra cts = Ok h ->
  inline_query u = Some iq ->
  passes cts (chat_type iq) ->
  exists p,
    stored (Some pat) (Some p)
    /\ (query iq = None \/ query iq = Some "" ->
        check_update h (PyUpdate u) = Ok RNone)
    /\ (forall q, query iq = Some q -> q <> "" ->
        check_update h (PyUpdate u)
        = Ok match Pattern_match p q with
             | Some mo => RMatch mo
             | None => RNone
             end
        /\ (forall mo, check_update h (PyUpdate u) = Ok (RMatch mo)
                       <-> Pattern_match p q = Some mo)).
Proof.
intros (cp & Hst & ->)%init_stored Hiq Hpass.
assert (exists p, cp = Some p) as [p ->].
{ destruct pat as [s|p]; cbn in Hst; [destruct Hst as (p & _ & ->)|]; eauto. }
exists p. split; [done|]. rewrite check_update_compiled.
rewrite (outcome_passed _ _ _ _ Hiq Hpass). split.
- intros ->%if_str_None. done.
- intros q Hq Hne. rewrite (proj2 (if_str_Some _ _) (conj Hq Hne)).
  split; [done|]. intros mo. destruct (Pattern_match p q); split; congruence.
Qed.

(** C7: a handler constructed without a pattern returns [True] on every
    update whose inline query passes the allow-list, whatever the query
    text, absent and empty included. *)
Theorem no_pattern_succeeds cb ra cts h u iq :
  __init__ cb None ra cts = Ok h ->
  inline_query u = Some iq ->
  passes cts (chat_type iq) ->
  check_update h (PyUpdate u) = Ok (RBool true).
Proof.
intros (cp & -> & ->)%init_stored Hiq Hpass.
rewrite check_update_compiled. by rewrite (outcome_passed _ _ _ _ Hiq Hpass).
Qed.

(** C8: for a handler constructed with a pattern,
    [collect_additional_context] sets the attribute [matches] of the
    context to the one-element list holding the check result, whatever
    the attribute held before, and leaves every other attribute as it
    was; that check result, when it is the match reported by
    [check_update], is the match object.  For a handler constructed
    without a pattern the context is returned unchanged. *)
Theorem collect_additional_context_matches cb pat ra cts h ctx U r :
  __init__ cb pat ra cts = Ok h ->
  (is_Some pat ->
     collect_additional_context h ctx U r !! "matches"
     = Some (AttrMatches [r])
     /\ (forall k, k <> "matches" ->
         collect_additional_context h ctx U r !! k = ctx !! k)
     /\ (check_update h U = Ok r -> ~ no_match r -> exists mo, r = RMatch mo))
  /\ (pat = None -> collect_additional_context h ctx U r = ctx).
Proof.
intros (cp & Hst & ->)%init_stored. unfold collect_additional_context.
cbn [pattern]. split.
- intros [pa ->]. assert (exists p, cp = Some p) as [p ->].
  { destruct pa as [s|p]; cbn in Hst; [destruct Hst as (p & _ & ->)|]; eauto. }
  rewrite check_update_compiled. cbn. split; [apply lookup_insert_eq|]. split.
  + intros k Hk. by apply lookup_insert_ne.
  + intros [= <-] Hnm. unfold outcome in *.
    unfold no_match in Hnm.
    repeat (match goal with
            | H : context [match ?x with _ => _ end] |- _ => destruct x
            | |- context [match ?x with _ => _ end] => destruct x
            end; try tauto; eauto).
- intros ->. cbn in Hst. by subst cp.
Qed.





End InlineQuery.

(** ** The engine [sre]: a match starts at the start of the text *)

Section SreAnchored.
Import sre.

Lemma append_cons c p s : String c p +:+ s = String c (p +:+ s).
Proof. reflexivity. Qed.

Lemma rest_of_refl s : rest_of s s.
Proof. by exists EmptyString. Qed.

Lemma rest_of_trans s1 s2 s3 : rest_of s1 s2 -> rest_of s2 s3 -> rest_of s1 s3.
Proof.
intros [p1 ->] [p2 ->]. exists (p2 +:+ p1).
induction p2 as [|c p2 IH]; [done|]. rewrite !append_cons. by f_equal.
Qed.

Lemma rest_of_tail c s : rest_of s (String c s).
Proof. by exists (String c EmptyString). Qed.

Lemma run_rest {X} r : forall s cs (k : string -> captures -> option X) x,
  run r s cs k = Some x ->
  exists s' cs', rest_of s' s /\ k s' cs' = Some x.
Proof.
induction r as [|c| |r1 IH1 r2 IH2|r1 IH1 r2 IH2|r1 IH1|i r1 IH1];
  intros s cs k x; cbn [run].
- intros Hk. exists s, cs. split; [apply rest_of_refl|done].
- destruct s as [|a s']; [done|]. destruct (Ascii.eqb a c); [|done].
  intros Hk. exists s', cs. split; [apply rest_of_tail|done].
- destruct s as [|a s']; [done|]. destruct (Ascii.eqb a newline); [done|].
  intros Hk. exists s', cs. split; [apply rest_of_tail|done].
- intros (s1 & cs1 & Hr1 & H2)%IH1.
  apply IH2 in H2 as (s2 & cs2 & Hr2 & Hk).
  exists s2, cs2. split; [by eapply rest_of_trans|done].
- destruct (run r1 s cs k) eqn:E1.
  + intros [= ->]. by apply IH1 in E1.
  + apply IH2.
- generalize (String.length s). intros fuel. revert s cs.
  induction fuel as [|fuel IHf]; intros s cs.
  + intros Hk. exists s, cs. split; [apply rest_of_refl|done].
  + match goal with
    | |- context [run r1 s cs ?k1] => destruct (run r1 s cs k1) eqn:E1
    end.
    * intros [= ->]. apply IH1 in E1 as (s1 & cs1 & Hr1 & Hloop).
      destruct (String.length s1 <? String.length s)%nat; [|done].
      apply IHf in Hloop as (s2 & cs2 & Hr2 & Hk).
      exists s2, cs2. split; [by eapply rest_of_trans|done].
    * intros Hk. exists s, cs. split; [apply rest_of_refl|done].
- intros (s1 & cs1 & Hr1 & Hk)%IH1. eauto.
Qed.

Lemma substring_prefix pre s :
  substring 0 (String.length (pre +:+ s) - String.length s) (pre +:+ s) = pre.
Proof.
assert (String.length (pre +:+ s) - String.length s = String.length pre)%nat
  as ->.
{ induction pre as [|c pre IH];
    [change (EmptyString +:+ s) with s; cbn; lia|].
  rewrite append_cons. cbn.
  assert (String.length s <= String.length (pre +:+ s))%nat.
  { clear. induction pre; [change (EmptyString +:+ s) with s; lia|].
    rewrite append_cons. cbn. lia. }
  lia. }
induction pre as [|c pre IH]; [change (EmptyString +:+ s) with s; by destruct s|].
rewrite append_cons. cbn. by rewrite IH.
Qed.

(** The text of a match is a prefix of the text searched: [p.match(s)]
    tries the pattern at the start of [s] only, and need not reach its
    end. *)
Lemma pattern_match_prefix p s m :
  pattern_match p s = Some m ->
  m_string m = s /\ exists rest, s = group0 m +:+ rest.
Proof.
unfold pattern_match. intros (s' & cs & [pre ->] & [= <-])%run_rest.
split; [done|]. exists s'. unfold group0. cbn [m_end m_string].
by rewrite substring_prefix.
Qed.

(** The letters [est] occur in ["test message"], but not at its start. *)
Example est_not_at_start :
  (p ← compile "est"; Ok (pattern_match p "test message")) = Ok None.
Proof. reflexivity. Qed.

End SreAnchored.

(** ** InlineQueryHandler on the engine [sre] *)

Section OnSre.
Import InlineQueryHandler.

Lemma listed_private : listed ["private"] (Some "private").
Proof. exists "private". split; [reflexivity|apply list_elem_of_here]. Qed.

Lemma group_not_listed : ~ listed ["private"] (Some "group").
Proof. apply not_in_listed. reflexivity. Qed.

End OnSre.

(** C3, at an instance: the handler for ["te"] in private chats refuses the
    query ["test message"] from a group, which its pattern matches. *)
Lemma chat_type_check_takes_precedence_witness :
  InlineQueryHandler.check_update te_private
    (PyUpdate (query_from (Some "test message") (Some "group")))
  = Ok (InlineQueryHandler.RBool false)
  /\ Pattern_match te_pattern "test message" <> None.
Proof.
split; [|discriminate].
apply (@chat_type_check_takes_precedence sre_Regex te_private ["private"]
         (query_from (Some "test message") (Some "group"))
         (mkInlineQuery (Some "test message") (Some "group"))).
- reflexivity.
- reflexivity.
- exact group_not_listed.
Defined.

(** C4, at an instance: the pattern ["te"] matches the query
    ["test message"] at its start without covering it, and the match
    object is returned. *)
Lemma pattern_check_on_query_text_witness :
  exists mo,
    InlineQueryHandler.check_update te_private
      (PyUpdate (query_from (Some "test message") (Some "private")))
    = Ok (InlineQueryHandler.RMatch mo)
    /\ sre.group0 mo = "te".
Proof.
destruct (@pattern_check_on_query_text sre_Regex "on_query" (PatStr "te")
            false (Some ["private"]) te_private
            (query_from (Some "test message") (Some "private"))
            (mkInlineQuery (Some "test message") (Some "private"))
            eq_refl eq_refl listed_private)
  as (p & (p' & Hc & Hp) & _ & Hq).
injection Hc as <-. injection Hp as ->.
destruct (Hq "test message" eq_refl) as [Heq _]; [discriminate|].
rewrite Heq. eexists. split; reflexivity.
Defined.

(** C7, at an instance: without pattern, a query from a private chat is
    accepted though it has no text. *)
Lemma no_pattern_succeeds_witness :
  InlineQueryHandler.check_update any_private
    (PyUpdate (query_from None (Some "private")))
  = Ok (InlineQueryHandler.RBool true).
Proof.
apply (@no_pattern_succeeds sre_Regex "on_query" false (Some ["private"])
         any_private (query_from None (Some "private"))
         (mkInlineQuery None (Some "private")) eq_refl eq_refl listed_private).
Defined.

(** C8, at an instance: a context that already has [matches] and [args]
    gets the new [matches] and keeps its [args]. *)
Lemma collect_additional_context_matches_witness :
  let ctx : gmap string (Attr InlineQueryHandler.CheckResult) :=
    <["matches" := AttrMatches []]> (<["args" := AttrArgs (Some ["x"])]> ∅) in
  let ctx' :=
    InlineQueryHandler.collect_additional_context te_private ctx PyNone
      (InlineQueryHandler.RBool true) in
  ctx' !! "matches" = Some (AttrMatches [InlineQueryHandler.RBool true])
  /\ ctx' !! "args" = Some (AttrArgs (Some ["x"])).
Proof.
intros ctx ctx'.
destruct (@collect_additional_context_matches sre_Regex "on_query"
            (Some (PatStr "te")) false (Some ["private"]) te_private ctx
            PyNone (InlineQueryHandler.RBool true) eq_refl) as [Hset _].
destruct (Hset (ex_intro _ _ eq_refl)) as (Hm & Hother & _).
split; [exact Hm|].
unfold ctx'. rewrite Hother by discriminate. reflexivity.
Defined.



(** C9: the handler constructed with the pattern string of the test, the
    named groups [begin] and [end], each any text, around the letters
    [est], matches an inline query whose text is ["test message"]; in the
    match object the group [begin] is ["t"] and
    the group [end] is [" message"], and the whole match is the whole
    text.  The same handler does not match the text ["does not match"]. *)
Theorem named_groups_of_test_message :
  forall cb ra id msg ct,
  exists h mo,
    InlineQueryHandler.__init__ cb
      (Some (PatStr "(?P<begin>.*)est(?P<end>.*)")) ra None = Ok h
    /\ InlineQueryHandler.check_update h
         (PyUpdate (mkUpdate id msg
            (Some (mkInlineQuery (Some "test message") ct))))
       = Ok (InlineQueryHandler.RMatch mo)
    /\ sre.groupdict mo = [("begin", Some "t"); ("end", Some " message")]
    /\ sre.groups_of mo = [Some "t"; Some " message"]
    /\ sre.group0 mo = "test message"
    /\ InlineQueryHandler.check_update h
         (PyUpdate (mkUpdate id msg
            (Some (mkInlineQuery (Some "does not match") ct))))
       = Ok InlineQueryHandler.RNone.
Proof.
intros cb ra id msg ct. eexists. eexists.
split; [reflexivity|]. split; [reflexivity|]. by repeat split.
Qed.

(** ** The dispatch engine *)

Section Dispatch.
Context `{R : Regex}.
Import Dispatcher.

Lemma scan_found g hs u : forall i ev j h r,
  scan g i hs u = (ev, Some (j, h, r)) ->
  exists k, j = (i + k)%nat /\ hs !! k = Some h /\ h_match h u = Some r
    /\ (forall k' h', (k' < k)%nat -> hs !! k' = Some h' -> h_match h' u = None)
    /\ (forall e, e ∈ ev -> exists j', e = Consulted g j' /\ (j' <= j)%nat).
Proof.
induction hs as [|h0 hs IH]; intros i ev j h r; cbn [scan]; [done|].
destruct (h_match h0 u) as [r0|] eqn:Hm.
- intros [= <- <- <- <-]. exists 0%nat. split; [lia|]. split; [done|].
  split; [done|]. split; [lia|].
  intros e ->%list_elem_of_singleton. eauto.
- destruct (scan g (S i) hs u) as [ev' found] eqn:Hs.
  intros [= <- ->]. destruct (IH _ _ _ _ _ Hs) as (k & -> & Hk & Hr & Hno & Hev).
  exists (S k). split; [lia|]. split; [done|]. split; [done|]. split.
  + intros [|k'] h' Hlt; cbn; [by intros [= <-]|].
    apply Hno. lia.
  + intros e [->|He]%elem_of_cons.
    * exists i. split; [done|lia].
    * destruct (Hev e He) as (j' & -> & Hle). exists j'. split; [done|lia].
Qed.

Lemma scan_none g hs u : forall i ev,
  scan g i hs u = (ev, None) ->
  (forall h', h' ∈ hs -> h_match h' u = None)
  /\ (forall e, e ∈ ev -> exists j', e = Consulted g j').
Proof.
induction hs as [|h0 hs IH]; intros i ev; cbn [scan].
- intros [= <-]. split; intros ? H; by apply elem_of_nil in H.
- destruct (h_match h0 u) as [r0|] eqn:Hm; [done|].
  destruct (scan g (S i) hs u) as [ev' found] eqn:Hs.
  intros [= <- ->]. destruct (IH _ _ Hs) as [Hno Hev]. split.
  + intros h' [->|Hin]%elem_of_cons; auto.
  + intros e [->|He]%elem_of_cons; eauto.
Qed.

Lemma search_found gs u : forall ev g i h r,
  search gs u = (ev, Some (g, i, h, r)) ->
  exists pre hs post,
    gs = pre ++ (g, hs) :: post
    /\ hs !! i = Some h /\ h_match h u = Some r
    /\ (forall k' h', (k' < i)%nat -> hs !! k' = Some h' -> h_match h' u = None)
    /\ (forall g' hs' h', (g', hs') ∈ pre -> h' ∈ hs' -> h_match h' u = None)
    /\ (forall e, e ∈ ev ->
        exists g' j, e = Consulted g' j
          /\ ((g' = g /\ (j <= i)%nat) \/ exists hs', (g', hs') ∈ pre)).
Proof.
induction gs as [|[g0 hs0] gs IH]; intros ev g i h r; cbn [search]; [done|].
destruct (scan g0 0 hs0 u) as [ev0 [[[j h0] r0]|]] eqn:Hs.
- intros [= <- <- <- <- <-].
  destruct (scan_found _ _ _ _ _ _ _ _ Hs) as (k & -> & Hk & Hr & Hno & Hev).
  exists [], hs0, gs. cbn. repeat split; try done.
  + intros g' hs' h' Hin. by apply elem_of_nil in Hin.
  + intros e He. destruct (Hev e He) as (j' & -> & Hle). eauto 10.
- case_eq (search gs u). intros ev' found Hr.
  intros [= <- ->]. destruct (scan_none _ _ _ _ _ Hs) as [Hno0 Hev0].
  destruct (IH _ _ _ _ _ Hr) as (pre & hs & post & -> & Hi & Hm & Hno & Hpre & Hev).
  exists ((g0, hs0) :: pre), hs, post. repeat split; try done.
  + intros g' hs' h' [[= -> ->]|Hin]%elem_of_cons; eauto.
  + intros e [He|He]%elem_of_app.
    * destruct (Hev0 e He) as (j' & ->). exists g0, j'. split; [done|].
      right. exists hs0. apply list_elem_of_here.
    * destruct (Hev e He) as (g' & j & -> & [Hg|[hs' Hin]]); exists g', j;
        (split; [done|]); [by left|right].
      exists hs'. by apply list_elem_of_further.
Qed.

Lemma search_none gs u : forall ev,
  search gs u = (ev, None) ->
  (forall g' hs' h', (g', hs') ∈ gs -> h' ∈ hs' -> h_match h' u = None)
  /\ (forall e, e ∈ ev -> exists g' j, e = Consulted g' j).
Proof.
induction gs as [|[g0 hs0] gs IH]; intros ev; cbn [search].
- intros [= <-]. split; intros; by match goal with H : _ ∈ [] |- _ => apply elem_of_nil in H end.
- destruct (scan g0 0 hs0 u) as [ev0 [[[j h0] r0]|]] eqn:Hs; [done|].
  case_eq (search gs u). intros ev' found Hr.
  intros [= <- ->]. destruct (scan_none _ _ _ _ _ Hs) as [Hno0 Hev0].
  destruct (IH _ Hr) as [Hno Hev]. split.
  + intros g' hs' h' [[= -> ->]|Hin]%elem_of_cons; eauto.
  + intros e [He|He]%elem_of_app; [|by apply Hev].
    destruct (Hev0 e He) as (j' & ->). eauto.
Qed.

#[local] Instance group_le_total : Total group_le.
Proof. intros a b. unfold group_le. lia. Qed.

#[local] Instance group_le_trans : Transitive group_le.
Proof. intros a b c. unfold group_le. lia. Qed.

Lemma iterate_elem (reg : Registry) g hs :
  (g, hs) ∈ iterate_groups_in_order reg <-> reg !! g = Some hs.
Proof.
unfold iterate_groups_in_order.
rewrite (merge_sort_Permutation group_le (map_to_list reg)).
apply elem_of_map_to_list.
Qed.

Lemma iterate_before (reg : Registry) pre g hs post g' hs' :
  iterate_groups_in_order reg = pre ++ (g, hs) :: post ->
  (g', hs') ∈ pre -> g' < g.
Proof.
intros Heq Hin.
assert (g' <= g) as Hle.
{ pose proof (StronglySorted_merge_sort group_le (map_to_list reg)) as Hs.
  fold (iterate_groups_in_order reg) in Hs. rewrite Heq in Hs.
  apply (StronglySorted_app_1_elem_of group_le _ _ (g', hs') (g, hs) Hs Hin),
    list_elem_of_here. }
assert (g' <> g); [|lia]. intros ->.
pose proof (NoDup_fst_map_to_list reg) as Hnd.
rewrite <- (merge_sort_Permutation group_le (map_to_list reg)) in Hnd.
fold (iterate_groups_in_order reg) in Hnd. rewrite Heq, fmap_app in Hnd.
apply NoDup_app in Hnd as (_ & Hdisj & _).
apply (Hdisj g).
- apply list_elem_of_fmap. by exists (g, hs').
- cbn. apply list_elem_of_here.
Qed.

Lemma first_match_unique reg u g1 i1 h1 g2 i2 h2 :
  first_match reg u g1 i1 h1 -> first_match reg u g2 i2 h2 ->
  g1 = g2 /\ i1 = i2 /\ h1 = h2.
Proof.
intros (hs1 & Hg1 & Hi1 & [r1 Hm1] & Hmin1) (hs2 & Hg2 & Hi2 & [r2 Hm2] & Hmin2).
assert (g1 = g2) as <-.
{ destruct (Z.lt_trichotomy g1 g2) as [Hlt|[Heq|Hgt]]; [|done|].
  - rewrite (Hmin2 _ _ _ _ Hg1 Hi1) in Hm1; [done|by left].
  - rewrite (Hmin1 _ _ _ _ Hg2 Hi2) in Hm2; [done|by left]. }
assert (hs1 = hs2) as <- by congruence.
assert (i1 = i2) as <-.
{ destruct (Nat.lt_trichotomy i1 i2) as [Hlt|[Heq|Hgt]]; [|done|].
  - rewrite (Hmin2 _ _ _ _ Hg1 Hi1) in Hm1; [done|by right].
  - rewrite (Hmin1 _ _ _ _ Hg2 Hi2) in Hm2; [done|by right]. }
split; [done|]. split; [done|]. congruence.
Qed.

Lemma iterate_after (reg : Registry) pre g hs post g' hs' :
  iterate_groups_in_order reg = pre ++ (g, hs) :: post ->
  (g', hs') ∈ post -> g <= g'.
Proof.
intros Heq Hin.
pose proof (StronglySorted_merge_sort group_le (map_to_list reg)) as Hs.
fold (iterate_groups_in_order reg) in Hs. rewrite Heq in Hs.
apply StronglySorted_app_1_r, StronglySorted_cons in Hs as [Hall _].
rewrite Forall_forall in Hall. exact (Hall _ Hin).
Qed.

(** The two ways a dispatch can go. *)
Lemma dispatch_cases reg default_pooled shared u :
  (exists ev g i h r,
     dispatch reg default_pooled shared u
     = (Handled,
        ev ++ [Invoked g i (h_callback h)
                 (execution_mode default_pooled (h_mode h))
                 (h_enrich h (build u shared) u r)])
     /\ first_match reg u g i h /\ h_match h u = Some r
     /\ (forall e, e ∈ ev ->
         exists g' j, e = Consulted g' j
           /\ (g' < g \/ (g' = g /\ (j <= i)%nat))))
  \/ (exists ev,
     dispatch reg default_pooled shared u = (Unhandled, ev)
     /\ (forall e, e ∈ ev -> exists g' j, e = Consulted g' j)
     /\ (forall g hs h, reg !! g = Some hs -> h ∈ hs -> h_match h u = None)).
Proof.
unfold dispatch.
destruct (search (iterate_groups_in_order reg) u)
  as [ev [[[[g i] h] r]|]] eqn:Hsearch.
- left. exists ev, g, i, h, r. split; [done|].
  destruct (search_found _ _ _ _ _ _ _ Hsearch)
    as (pre & hs & post & Heq & Hi & Hm & Hno & Hpre & Hev).
  assert (reg !! g = Some hs) as Hg.
  { apply iterate_elem. rewrite Heq. apply elem_of_app. right.
    apply list_elem_of_here. }
  split; [|split; [done|]].
  + exists hs. split; [done|]. split; [done|]. split; [by eexists|].
    intros g' hs' j h' Hg' Hj [Hlt|[-> Hlt]].
    * apply iterate_elem in Hg'. rewrite Heq in Hg'.
      apply elem_of_app in Hg' as [Hin|[[= -> ->]|Hin]%elem_of_cons].
      -- apply (Hpre g' hs' h' Hin). by eapply list_elem_of_lookup_2.
      -- lia.
      -- pose proof (iterate_after _ _ _ _ _ _ _ Heq Hin). lia.
    * assert (hs' = hs) as -> by congruence. by eapply Hno.
  + intros e He. destruct (Hev e He) as (g' & j & -> & [[Hg' Hle]|[hs' Hin]]);
      exists g', j; (split; [done|]); [by right|left].
    by eapply iterate_before.
- right. exists ev. split; [done|].
  destruct (search_none _ _ _ Hsearch) as [Hno Hev]. split; [done|].
  intros g hs h Hg Hh. apply (Hno g hs h); [|done]. by apply iterate_elem.
Qed.

Lemma invocations_consulted ev :
  (forall e, e ∈ ev -> exists g j, e = Consulted g j) -> invocations ev = [].
Proof.
induction ev as [|e ev IH]; [done|]. intros Hall.
destruct (Hall e) as (g & j & ->); [apply list_elem_of_here|].
cbn. apply IH. intros e' He'. apply Hall. by apply list_elem_of_further.
Qed.

Lemma invocations_app ev1 ev2 :
  invocations (ev1 ++ ev2) = invocations ev1 ++ invocations ev2.
Proof. apply List.filter_app. Qed.

(** C1: a dispatch invokes at most one callback.  A callback is invoked
    exactly when some handler is the first one that matches the update,
    in ascending order of group identifier and, within a group, in
    registration order; it is the callback of that handler, run in the
    handler's execution mode on the enriched fresh context.  No handler
    after the first match is consulted, in particular none of a later
    group.  When no handler of the registry matches, nothing is invoked
    and the outcome is "unhandled". *)
Theorem dispatch_first_match_wins reg default_pooled shared u :
  let out := dispatch reg default_pooled shared u in
  (length (invocations out.2) <= 1)%nat
  /\ (forall g i cb pooled ctx,
      Invoked g i cb pooled ctx ∈ out.2 <->
      exists h r, first_match reg u g i h /\ h_match h u = Some r
        /\ cb = h_callback h
        /\ pooled = execution_mode default_pooled (h_mode h)
        /\ ctx = h_enrich h (build u shared) u r)
  /\ (forall g i h g' j,
      first_match reg u g i h -> Consulted g' j ∈ out.2 ->
      g' < g \/ (g' = g /\ (j <= i)%nat))
  /\ ((forall g hs h, reg !! g = Some hs -> h ∈ hs -> h_match h u = None) ->
      invocations out.2 = [] /\ out.1 = Unhandled).
Proof.
cbn zeta.
destruct (dispatch_cases reg default_pooled shared u)
  as [(ev & g0 & i0 & h0 & r0 & -> & Hfirst & Hm & Hev)
     |(ev & -> & Hev & Hno)]; cbn [fst snd].
- assert (invocations ev = []) as Hinv.
  { apply invocations_consulted. intros e He.
    destruct (Hev e He) as (g' & j & -> & _). eauto. }
  split; [by rewrite invocations_app, Hinv|].
  split; [|split].
  + intros g i cb pooled ctx. split.
    * intros [Hin|Hin]%elem_of_app.
      -- by destruct (Hev _ Hin) as (g' & j & ? & _).
      -- apply list_elem_of_singleton in Hin as [= -> -> -> -> ->]. eauto 10.
    * intros (h & r & Hf & Hr & -> & -> & ->).
      destruct (first_match_unique _ _ _ _ _ _ _ _ Hf Hfirst) as (-> & -> & ->).
      assert (r = r0) as -> by congruence.
      apply elem_of_app. right. apply list_elem_of_here.
  + intros g i h g' j Hf Hin.
    destruct (first_match_unique _ _ _ _ _ _ _ _ Hf Hfirst) as (-> & -> & ->).
    apply elem_of_app in Hin as [Hin|Hin].
    * destruct (Hev _ Hin) as (g'' & j'' & [= -> ->] & Hle). done.
    * by apply list_elem_of_singleton in Hin.
  + intros Hnone. destruct Hfirst as (hs & Hg & Hi & _).
    rewrite (Hnone g0 hs h0 Hg) in Hm; [done|]. by eapply list_elem_of_lookup_2.
- assert (invocations ev = []) as Hinv by by apply invocations_consulted.
  split; [rewrite Hinv; cbn; lia|]. split; [|split; [|done]].
  + intros g i cb pooled ctx. split.
    * intros Hin. by destruct (Hev _ Hin) as (g' & j & ? ).
    * intros (h & r & (hs & Hg & Hi & _) & Hr & _).
      rewrite (Hno g hs h Hg) in Hr; [done|]. by eapply list_elem_of_lookup_2.
  + intros g i h g' j (hs & Hg & Hi & [r Hr] & _) _.
    rewrite (Hno g hs h Hg) in Hr; [done|]. by eapply list_elem_of_lookup_2.
Qed.

End Dispatch.

(** ** A registry with two groups *)

Section TwoGroups.
Import Dispatcher.

Lemma two_groups_order :
  iterate_groups_in_order two_groups
  = [(0, [of_StringCommandHandler
            (StringCommandHandler.__init__ "start" "on_start" false)]);
     (1, [of_TypeHandler (TypeHandler.__init__ c_str "on_str" false true)])].
Proof. reflexivity. Qed.

(** Both handlers match ["/start now"]; only the callback of group 0 is
    invoked, and the handler of group 1 is not consulted. *)
Example two_groups_start :
  dispatch two_groups false PyNone (PyStr "/start now")
  = (Handled,
     [Consulted 0 0;
      Invoked 0 0 "on_start" false
        (<["args" := AttrArgs (Some ["now"])]>
           (build (PyStr "/start now") PyNone))]).
Proof. unfold dispatch. rewrite two_groups_order. reflexivity. Qed.

(** A string that is no command falls through to group 1, whose handler
    asked for pooled execution. *)
Example two_groups_text :
  dispatch two_groups false PyNone (PyStr "hello")
  = (Handled,
     [Consulted 0 0; Consulted 1 0;
      Invoked 1 0 "on_str" true (build (PyStr "hello") PyNone)]).
Proof. unfold dispatch. rewrite two_groups_order. reflexivity. Qed.

(** An integer matches neither handler. *)
Example two_groups_int :
  dispatch two_groups false PyNone (PyInt 7)
  = (Unhandled, [Consulted 0 0; Consulted 1 0]).
Proof. unfold dispatch. rewrite two_groups_order. reflexivity. Qed.

End TwoGroups.

(** * Further properties of the handlers *)

(** ** StringCommandHandler *)

Section StringCommandMore.
Import StringCommandHandler.

Lemma length_split sep s : length (split sep s) = S (occurrences sep s).
Proof.
induction s as [|c s IH]; [done|]. cbn [split occurrences].
destruct (Ascii.eqb c sep); cbn [length]; [by rewrite IH|].
pose proof (split_nonempty sep s) as Hne.
destruct (split sep s) as [|t ts]; [done|]. cbn [length] in *. lia.
Qed.

Lemma split_snoc sep s t :
  lacks sep t = true ->
  split sep (s +:+ String sep t) = split sep s ++ [t].
Proof.
intros Ht. induction s as [|c s IH].
- change (EmptyString +:+ String sep t) with (String sep t).
  cbn [split]. rewrite Ascii.eqb_refl. by rewrite split_lacks_one.
- rewrite append_cons. cbn [split]. rewrite IH.
  destruct (Ascii.eqb c sep); [done|].
  pose proof (split_nonempty sep s) as Hne.
  by destruct (split sep s) as [|x xs].
Qed.

Lemma split_lacks_prefix sep t s :
  lacks sep t = true ->
  split sep (t +:+ s)
  = match split sep s with
    | x :: xs => (t +:+ x) :: xs
    | [] => [t]
    end.
Proof.
intros Ht. induction t as [|c t IH].
- change (EmptyString +:+ s) with s.
  pose proof (split_nonempty sep s) as Hne.
  by destruct (split sep s).
- cbn [lacks] in Ht. apply andb_true_iff in Ht as [Hc Ht].
  rewrite append_cons. cbn [split].
  destruct (Ascii.eqb c sep); [done|]. rewrite (IH Ht).
  pose proof (split_nonempty sep s) as Hne.
  by destruct (split sep s).
Qed.

Lemma length_append_cons t c x :
  String.length (t +:+ String c x) = S (String.length t + String.length x).
Proof.
induction t as [|a t IH]; [done|]. rewrite append_cons. cbn. rewrite IH. lia.
Qed.

End StringCommandMore.

(** X1: on a match, there are as many arguments as there are spaces in
    the update. *)
Theorem args_as_many_as_spaces h u args :
  StringCommandHandler.check_update h (PyStr u) = Ok (Some args) ->
  length args = occurrences " " u.
Proof.
intros (s & [= ->] & Hs)%check_update_split.
pose proof (length_split " " s) as Hlen. rewrite Hs in Hlen.
cbn [length] in Hlen. cbn. lia.
Qed.

Lemma args_as_many_as_spaces_witness :
  length ["a"; ""; "b"] = occurrences " " "/start a  b".
Proof.
apply (args_as_many_as_spaces start_handler "/start a  b" ["a"; ""; "b"]).
reflexivity.
Defined.

(** X2: after a match, [collect_additional_context] puts the arguments
    into the attribute [args] of the context, whatever it held, and keeps
    every other attribute; the update is the [/], the command and these
    arguments, joined by single spaces. *)
Theorem args_in_context_rebuild_update {M} h U args
    (ctx : gmap string (Attr M)) :
  StringCommandHandler.check_update h U = Ok (Some args) ->
  let ctx' :=
    StringCommandHandler.collect_additional_context h ctx U (Some args) in
  ctx' !! "args" = Some (AttrArgs (Some args))
  /\ (forall k, k <> "args" -> ctx' !! k = ctx !! k)
  /\ (forall a, ctx' !! "args" = Some (AttrArgs (Some a)) ->
      U = PyStr (String "/" (join " " (StringCommandHandler.command h :: a)))).
Proof.
intros (s & -> & Hs)%check_update_split ctx'.
unfold ctx', StringCommandHandler.collect_additional_context.
split; [apply lookup_insert_eq|]. split.
- intros k Hk. by apply lookup_insert_ne.
- rewrite lookup_insert_eq. intros a [= <-]. by rewrite <- Hs, join_split.
Qed.

Lemma args_in_context_rebuild_update_witness :
  let ctx' : gmap string (Attr unit) :=
    StringCommandHandler.collect_additional_context start_handler
      (<["args" := AttrArgs None]> ∅) (PyStr "/start  now")
      (Some [""; "now"]) in
  ctx' !! "args" = Some (AttrArgs (Some [""; "now"])).
Proof.
intros ctx'.
apply (@args_in_context_rebuild_update unit start_handler
         (PyStr "/start  now") [""; "now"]
         (<["args" := AttrArgs None]> ∅) eq_refl).
Defined.

(** X3: two handlers that match the same update listen for the same
    command, and they report the same arguments. *)
Theorem same_update_same_command h1 h2 U a1 a2 :
  StringCommandHandler.check_update h1 U = Ok (Some a1) ->
  StringCommandHandler.check_update h2 U = Ok (Some a2) ->
  StringCommandHandler.command h1 = StringCommandHandler.command h2
  /\ a1 = a2.
Proof.
intros (s1 & -> & Hs1)%check_update_split
       (s2 & [= <-] & Hs2)%check_update_split.
rewrite Hs1 in Hs2. by injection Hs2 as -> ->.
Qed.

Lemma same_update_same_command_witness :
  StringCommandHandler.command start_handler
  = StringCommandHandler.command
      (StringCommandHandler.__init__ "start" "other" true)
  /\ ["now"] = ["now"].
Proof.
apply (same_update_same_command start_handler
         (StringCommandHandler.__init__ "start" "other" true)
         (PyStr "/start now") ["now"] ["now"]); reflexivity.
Defined.

(** X4: a handler matches some update exactly when its command holds no
    space; the empty command is one of these. *)
Theorem matches_something_iff_spaceless h :
  (exists U args, StringCommandHandler.check_update h U = Ok (Some args))
  <-> spaceless (StringCommandHandler.command h).
Proof.
split.
- intros (U & args & (s & -> & Hs)%check_update_split).
  pose proof (split_lacks " " s) as Hall. rewrite Hs in Hall.
  by inversion Hall.
- intros Hc. exists (PyStr (String "/" (StringCommandHandler.command h))), [].
  apply check_update_split. eexists. split; [done|].
  by apply split_lacks_one.
Qed.

(** X5: when an update matches, the update followed by a space and a
    token without space matches too, with that token as one more last
    argument; a trailing space alone adds an empty last argument. *)
Theorem one_more_argument h u args t :
  StringCommandHandler.check_update h (PyStr u) = Ok (Some args) ->
  spaceless t ->
  StringCommandHandler.check_update h (PyStr (u +:+ String " " t))
  = Ok (Some (args ++ [t])).
Proof.
intros (s & [= ->] & Hs)%check_update_split Ht.
apply check_update_split. exists (s +:+ String " " t).
split; [by rewrite append_cons|]. by rewrite split_snoc, Hs.
Qed.

Lemma one_more_argument_witness :
  StringCommandHandler.check_update start_handler (PyStr "/start now ")
  = Ok (Some ["now"; ""]).
Proof.
apply (one_more_argument start_handler "/start now" ["now"] "");
  reflexivity.
Defined.

(** X6: for a command without space, an update that starts with [/] and
    the command matches exactly when the update ends there or goes on
    with a space: a longer word that starts with the command does not
    match. *)
Theorem command_ends_at_space_or_end h rest :
  spaceless (StringCommandHandler.command h) ->
  (exists args,
     StringCommandHandler.check_update h
       (PyStr (String "/" (StringCommandHandler.command h +:+ rest)))
     = Ok (Some args))
  <-> rest = "" \/ exists r, rest = String " " r.
Proof.
intros Hc. split.
- intros (args & (s & [= <-] & Hs)%check_update_split).
  rewrite (split_lacks_prefix _ _ _ Hc) in Hs.
  destruct rest as [|c r]; [by left|right].
  destruct (Ascii.eqb_spec c " ") as [->|Hne]; [by exists r|].
  exfalso. cbn [split] in Hs.
  rewrite (proj2 (Ascii.eqb_neq c " ") Hne) in Hs.
  pose proof (split_nonempty " " r) as Hnil.
  destruct (split " " r) as [|x xs]; [done|].
  injection Hs as Hs _. apply (f_equal String.length) in Hs.
  rewrite length_append_cons in Hs. lia.
- intros [->|[r ->]].
  + exists []. apply check_update_split. eexists. split; [done|].
    rewrite (split_lacks_prefix _ _ _ Hc). cbn [split].
    clear. induction (StringCommandHandler.command h) as [|a c IH];
      [done|]. rewrite append_cons. by injection IH as ->.
  + exists (split " " r). apply check_update_split. eexists.
    split; [done|]. by apply split_lacks_app.
Qed.

Lemma command_ends_at_space_or_end_witness :
  (exists args,
     StringCommandHandler.check_update start_handler (PyStr "/starting")
     = Ok (Some args))
  <-> "ing" = "" \/ exists r, "ing" = String " " r.
Proof.
apply (command_ends_at_space_or_end start_handler "ing"). reflexivity.
Defined.



(** ** TypeHandler *)




(** X10: two strict handlers that match the same update are handlers
    for the same class. *)
Theorem strict_handlers_exclusive `{E : Runtime} T1 T2 cb1 cb2 ra1 ra2 U :
  TypeHandler.check_update (TypeHandler.__init__ T1 cb1 true ra1) U
  = Ok true ->
  TypeHandler.check_update (TypeHandler.__init__ T2 cb2 true ra2) U
  = Ok true ->
  T1 = T2.
Proof.
unfold TypeHandler.check_update, TypeHandler.__init__.
cbn [TypeHandler.strict TypeHandler.type negb].
intros [= H1%class_is_eq] [= H2%class_is_eq]. congruence.
Qed.

Lemma strict_handlers_exclusive_witness : c_int = c_int.
Proof.
apply (@strict_handlers_exclusive plain_runtime c_int c_int "a" "b" false
         true (PyInt 3)); reflexivity.
Defined.

(** ** InlineQueryHandler *)

Section InlineQueryMore.
Context `{R : Regex}.
Import InlineQueryHandler.

(** X11: with an allow-list, an inline query without chat type is never
    handled, and with the empty allow-list no inline query is: the
    result is [False], whatever the pattern and the query text. *)
Theorem no_chat_type_or_empty_list_rejected h l u iq :
  chat_types h = Some l ->
  inline_query u = Some iq ->
  chat_type iq = None \/ l = [] ->
  check_update h (PyUpdate u) = Ok (RBool false).
Proof.
intros Hl Hiq Hor. unfold check_update, rejected. rewrite Hiq, Hl.
assert (not_in (chat_type iq) l = true) as ->; [|done].
destruct Hor as [->| ->]; [done|]. by destruct (chat_type iq).
Qed.

(** X12: on an update that the allow-list does not reject, the handler
    answers as the handler with the same pattern and no allow-list. *)
Theorem allow_list_passed_is_no_allow_list h U :
  (forall u iq, U = PyUpdate u -> inline_query u = Some iq ->
     passes (chat_types h) (chat_type iq)) ->
  check_update h U
  = check_update (mk (callback h) (pattern h) (run_async h) None) U.
Proof.
intros Hpass. unfold check_update, rejected. cbn [chat_types pattern].
destruct U as [| | | |u|]; try done.
destruct (inline_query u) as [iq|] eqn:Hiq; [|done].
specialize (Hpass u iq eq_refl Hiq). apply allow_list_passes in Hpass.
by rewrite Hpass.
Qed.

(** X13: the context keeps the latest check result only: enriching it
    twice is enriching it with the second result. *)
Theorem latest_matches_only h ctx U1 U2 r1 r2 :
  collect_additional_context h
    (collect_additional_context h ctx U1 r1) U2 r2
  = collect_additional_context h ctx U2 r2.
Proof.
unfold collect_additional_context.
destruct (if_pattern (pattern h)); [apply insert_insert_eq|done].
Qed.

End InlineQueryMore.

Lemma no_chat_type_or_empty_list_rejected_witness :
  InlineQueryHandler.check_update te_private
    (PyUpdate (query_from (Some "test") None))
  = Ok (InlineQueryHandler.RBool false).
Proof.
apply (@no_chat_type_or_empty_list_rejected sre_Regex te_private
         ["private"] (query_from (Some "test") None)
         (mkInlineQuery (Some "test") None) eq_refl eq_refl).
by left.
Defined.

Lemma allow_list_passed_is_no_allow_list_witness :
  InlineQueryHandler.check_update te_private
    (PyUpdate (query_from (Some "test") (Some "private")))
  = InlineQueryHandler.check_update
      (InlineQueryHandler.mk "on_query" (Some (PatCompiled te_pattern))
         false None)
      (PyUpdate (query_from (Some "test") (Some "private"))).
Proof.
apply (@allow_list_passed_is_no_allow_list sre_Regex te_private
         (PyUpdate (query_from (Some "test") (Some "private")))).
intros u iq [= <-] [= <-]. exact listed_private.
Defined.

(** X14: on the engine [sre], when a constructed handler returns a match
    object, the update carries an inline query with a non-empty text, the
    match object is a match on that text, and what it matched is a prefix
    of the text. *)
Theorem match_object_is_prefix_of_query cb pat ra cts h u mo :
  InlineQueryHandler.__init__ cb pat ra cts = Ok h ->
  InlineQueryHandler.check_update h (PyUpdate u)
  = Ok (InlineQueryHandler.RMatch mo) ->
  exists iq q rest,
    inline_query u = Some iq /\ query iq = Some q /\ q <> ""
    /\ sre.m_string mo = q /\ q = sre.group0 mo +:+ rest.
Proof.
intros (cp & _ & ->)%init_stored. rewrite check_update_compiled.
intros [= Hout]. unfold outcome in Hout.
destruct (inline_query u) as [iq|]; [|done].
destruct (match cts with Some _ => _ | None => _ end); [done|].
destruct cp as [p|]; [|done].
destruct (InlineQueryHandler.if_str (query iq)) as [q|] eqn:Hq; [|done].
apply if_str_Some in Hq as [Hq Hne].
change (@Pattern_match sre_Regex p q) with (sre.pattern_match p q) in Hout.
destruct (sre.pattern_match p q) as [m|] eqn:Hm; [|done].
injection Hout as ->.
apply pattern_match_prefix in Hm as [Hs [rest Hrest]].
by exists iq, q, rest.
Qed.

Lemma match_object_is_prefix_of_query_witness :
  exists iq q rest,
    inline_query (query_from (Some "test message") (Some "private"))
    = Some iq
    /\ query iq = Some q /\ q <> ""
    /\ sre.m_string (sre.mkMatch te_pattern "test message" 2 []) = q
    /\ q = sre.group0 (sre.mkMatch te_pattern "test message" 2 [])
           +:+ rest.
Proof.
apply (match_object_is_prefix_of_query "on_query" (Some (PatStr "te"))
         false (Some ["private"]) te_private
         (query_from (Some "test message") (Some "private"))
         (sre.mkMatch te_pattern "test message" 2 [])); reflexivity.
Defined.

(** ** The callback of the test *)

Section TestCallback.
Import TestStringRegexHandler.

(** X15: [callback_context_pattern] raises [IndexError] on an empty list
    of matches.  Otherwise the flag it leaves is decided by the first
    match alone: by the named groups when there are some, else by the
    tuple of groups when there are some, and it is the flag from before
    the call when the pattern has no group at all. *)
Theorem callback_context_pattern_flag :
  (forall flag, callback_context_pattern flag [] = Raise IndexError)
  /\ (forall flag m ms,
      callback_context_pattern flag (m :: ms)
      = Ok (if bool_decide (sre.groupdict m <> []) then
              dict_eqb (sre.groupdict m)
                [("begin", Some "t"); ("end", Some " message")]
            else if bool_decide (sre.groups_of m <> []) then
              bool_decide (sre.groups_of m = [Some "t"; Some " message"])
            else flag))
  /\ (forall flag m ms,
      sre.groupindex (sre.m_re m) <> [] ->
      callback_context_pattern flag (m :: ms)
      = callback_context_pattern (negb flag) (m :: ms))
  /\ (forall flag m ms,
      sre.groups (sre.m_re m) = 0%nat ->
      sre.groupindex (sre.m_re m) = [] ->
      callback_context_pattern flag (m :: ms) = Ok flag).
Proof.
split; [done|].
assert (forall flag m ms,
  callback_context_pattern flag (m :: ms)
  = Ok (if bool_decide (sre.groupdict m <> []) then
          dict_eqb (sre.groupdict m)
            [("begin", Some "t"); ("end", Some " message")]
        else if bool_decide (sre.groups_of m <> []) then
          bool_decide (sre.groups_of m = [Some "t"; Some " message"])
        else flag)) as Hchar.
{ intros flag m ms. unfold callback_context_pattern. cbn [item0 mbind result_bind].
  destruct (sre.groupdict m) as [|kv d]; [|done].
  rewrite (bool_decide_eq_false_2 (@nil (string * option string) <> []))
    by (by intros H; apply H).
  destruct (sre.groups_of m) as [|g gs]; [|done].
  by rewrite (bool_decide_eq_false_2 (@nil (option string) <> []))
    by (by intros H; apply H). }
split; [exact Hchar|]. split.
- intros flag m ms Hnamed. rewrite !Hchar.
  assert (sre.groupdict m <> []) as Hd.
  { unfold sre.groupdict. by destruct (sre.groupindex (sre.m_re m)). }
  by rewrite bool_decide_eq_true_2.
- intros flag m ms Hg Hi. rewrite Hchar.
  unfold sre.groupdict, sre.groups_of. by rewrite Hg, Hi.
Qed.

End TestCallback.

(** The two patterns of the test file on ["test message"]: with the
    groups of the first the tuple decides, with the named groups of the
    second the dictionary does; both leave the flag set. *)
Example callback_on_test_message :
  (p ← sre.compile "(t)est(.*)";
   m ← item0 (option_list (sre.pattern_match p "test message"));
   TestStringRegexHandler.callback_context_pattern false [m]) = Ok true
  /\ (p ← sre.compile "(?P<begin>.*)est(?P<end>.*)";
      m ← item0 (option_list (sre.pattern_match p "test message"));
      TestStringRegexHandler.callback_context_pattern false [m]) = Ok true
  /\ (p ← sre.compile "(?P<begin>.*)est(?P<end>.*)";
      m ← item0 (option_list (sre.pattern_match p "the test message"));
      TestStringRegexHandler.callback_context_pattern true [m]) = Ok false.
Proof. by repeat split. Qed.
